(** * mini-chatbot-ui: the text formatter and the upload validator

    A shallow embedding of the two pure functions of the chat clients:
    [formatText] (App.jsx and its two sibling variants) and [validateFile]
    (the document-upload variant), together with the parts of the JavaScript
    runtime they call: strings of UTF-16 code units, [String.prototype.replace]
    with a global regular expression, [toLowerCase], [endsWith],
    [Array.prototype.some] / [includes] and [Number.prototype.toFixed]. *)

From Stdlib Require Import Ascii String DecimalString.
From Stdlib Require Import List NArith Arith Lia Bool.
Import ListNotations.

Local Open Scope N_scope.

(** ** JavaScript strings *)

(** A JavaScript string is a sequence of UTF-16 code units. *)
Definition codeunit := N.
Definition jsstring := list codeunit.

(** The code unit of a Basic Latin character. *)
Definition ch (a : ascii) : codeunit := N_of_ascii a.

(** A Basic Latin literal as a JavaScript string. *)
Fixpoint js (s : string) : jsstring :=
  match s with
  | EmptyString => []
  | String a s' => ch a :: js s'
  end.

Fixpoint str_eqb (a b : jsstring) : bool :=
  match a, b with
  | [], [] => true
  | x :: a', y :: b' => (x =? y) && str_eqb a' b'
  | _, _ => false
  end.

(** [s.substring(from, to)] for [from <= to]. *)
Definition substring (s : jsstring) (from to : nat) : jsstring :=
  firstn (to - from) (skipn from s).

(** [s.startsWith(p)]. *)
Fixpoint startsWith (s p : jsstring) : bool :=
  match p, s with
  | [], _ => true
  | y :: p', x :: s' => (x =? y) && startsWith s' p'
  | _ :: _, [] => false
  end.

(** [s.includes(p)]: [p] occurs in [s] as a substring. *)
Fixpoint includes (s p : jsstring) : bool :=
  startsWith s p ||
  match s with
  | [] => false
  | _ :: s' => includes s' p
  end.

(** [s.endsWith(p)]. *)
Definition endsWith (s p : jsstring) : bool :=
  (length p <=? length s)%nat
  && str_eqb (skipn (length s - length p) s) p.

(** Number of occurrences of the code unit [c] in [s]. *)
Fixpoint occurrences (c : codeunit) (s : jsstring) : nat :=
  match s with
  | [] => O
  | x :: s' => if x =? c then S (occurrences c s') else occurrences c s'
  end.

(** ** Regular expressions

    The fragment of ECMAScript regular expressions the formatter uses:
    literal characters, the classes [.], [\d], [\s] and [[...]], the greedy
    quantifiers [*] and [+] and the lazy [*?] on a class, the assertions [^]
    and [$], and numbered capture groups, written as a sequence with the
    group's parentheses as markers. *)

Module Regex.

Inductive cclass : Type :=
| Dot                              (* .    *)
| Digit                            (* \d   *)
| Space                            (* \s   *)
| OneOf (cs : list codeunit).      (* [..] *)

Inductive node : Type :=
| Lit (c : codeunit)               (* a literal character *)
| Cls (cl : cclass)                (* one character of a class *)
| Star (cl : cclass)               (* cl*  *)
| LazyStar (cl : cclass)           (* cl*? *)
| Plus (cl : cclass)               (* cl+  *)
| Bol                              (* ^    *)
| Eol                              (* $    *)
| Open (i : nat)                   (* ( of group i *)
| Close (i : nat).                 (* ) of group i *)

(** A regular expression with its [m] flag; every expression of the source
    carries the [g] flag. *)
Record regexp : Type := mkRegexp {
  pattern : list node;
  multiline : bool
}.

(** LineTerminator: LF, CR, LS, PS. *)
Definition isLineTerminator (c : codeunit) : bool :=
  (c =? 10) || (c =? 13) || (c =? 8232) || (c =? 8233).

(** WhiteSpace and LineTerminator, the characters of [\s]. *)
Definition isWhiteSpace (c : codeunit) : bool :=
  (c =? 9) || (c =? 10) || (c =? 11) || (c =? 12) || (c =? 13) || (c =? 32)
  || (c =? 160) || (c =? 5760) || ((8192 <=? c) && (c <=? 8202))
  || (c =? 8232) || (c =? 8233) || (c =? 8239) || (c =? 8287)
  || (c =? 12288) || (c =? 65279).

Definition isDigit (c : codeunit) : bool := (48 <=? c) && (c <=? 57).

Definition inClass (cl : cclass) (c : codeunit) : bool :=
  match cl with
  | Dot => negb (isLineTerminator c)
  | Digit => isDigit c
  | Space => isWhiteSpace c
  | OneOf cs => existsb (N.eqb c) cs
  end.

(** Captures: for each group, where it starts and ends in the input. *)
Definition captures := list (nat * (nat * nat)).

Fixpoint lookup (i : nat) (caps : captures) : option (nat * nat) :=
  match caps with
  | [] => None
  | (j, se) :: caps' => if (j =? i)%nat then Some se else lookup i caps'
  end.

Definition openGroup (i pos : nat) (caps : captures) : captures :=
  (i, (pos, pos)) :: caps.

Definition closeGroup (i pos : nat) (caps : captures) : captures :=
  match lookup i caps with
  | Some (from, _) => (i, (from, pos)) :: caps
  | None => caps
  end.

(** The result of a match: the end position and the captures. *)
Definition result := (nat * captures)%type.

(** The rest of a match: from the previous character, the remaining input
    and the position. *)
Definition cont := option codeunit -> jsstring -> nat -> option result.

(** [cl*]: as many characters of [cl] as possible, giving back one at a time
    while the rest [k] fails. *)
Fixpoint greedy (cl : cclass) (k : cont)
    (prev : option codeunit) (s : jsstring) (pos : nat) : option result :=
  match s with
  | x :: s' =>
      if inClass cl x then
        match greedy cl k (Some x) s' (S pos) with
        | Some r => Some r
        | None => k prev s pos
        end
      else k prev s pos
  | [] => k prev s pos
  end.

(** [cl*?]: as few characters of [cl] as possible, taking one more while
    the rest [k] fails. *)
Fixpoint nongreedy (cl : cclass) (k : cont)
    (prev : option codeunit) (s : jsstring) (pos : nat) : option result :=
  match k prev s pos with
  | Some r => Some r
  | None =>
      match s with
      | x :: s' => if inClass cl x then nongreedy cl k (Some x) s' (S pos) else None
      | [] => None
      end
  end.

(** [^]: at the start of the input, or with the [m] flag after a line
    terminator. *)
Definition atLineStart (m : bool) (prev : option codeunit) : bool :=
  match prev with
  | None => true
  | Some c => m && isLineTerminator c
  end.

(** [$]: at the end of the input, or with the [m] flag before a line
    terminator. *)
Definition atLineEnd (m : bool) (s : jsstring) : bool :=
  match s with
  | [] => true
  | c :: _ => m && isLineTerminator c
  end.

(** The backtracking matcher: [run m r prev s pos caps] matches the sequence
    [r] against [s], the input from position [pos] on, whose previous
    character is [prev]. *)
Fixpoint run (m : bool) (r : list node)
    (prev : option codeunit) (s : jsstring) (pos : nat) (caps : captures)
    {struct r} : option result :=
  match r with
  | [] => Some (pos, caps)
  | Lit c :: r' =>
      match s with
      | x :: s' => if x =? c then run m r' (Some x) s' (S pos) caps else None
      | [] => None
      end
  | Cls cl :: r' =>
      match s with
      | x :: s' =>
          if inClass cl x then run m r' (Some x) s' (S pos) caps else None
      | [] => None
      end
  | Star cl :: r' =>
      greedy cl (fun p t n => run m r' p t n caps) prev s pos
  | LazyStar cl :: r' =>
      nongreedy cl (fun p t n => run m r' p t n caps) prev s pos
  | Plus cl :: r' =>
      match s with
      | x :: s' =>
          if inClass cl x
          then greedy cl (fun p t n => run m r' p t n caps) (Some x) s' (S pos)
          else None
      | [] => None
      end
  | Bol :: r' => if atLineStart m prev then run m r' prev s pos caps else None
  | Eol :: r' => if atLineEnd m s then run m r' prev s pos caps else None
  | Open i :: r' => run m r' prev s pos (openGroup i pos caps)
  | Close i :: r' => run m r' prev s pos (closeGroup i pos caps)
  end.

(** A match of [re] that starts at position [pos]. *)
Definition matchAt (re : regexp)
    (prev : option codeunit) (s : jsstring) (pos : nat) : option result :=
  run (multiline re) (pattern re) prev s pos [].

(** The number of capture groups of a pattern. *)
Fixpoint groupCount (r : list node) : nat :=
  match r with
  | [] => O
  | Open _ :: r' => S (groupCount r')
  | _ :: r' => groupCount r'
  end.

(** The text of group [i]; a group that did not take part is empty. *)
Definition capture (input : jsstring) (caps : captures) (i : nat) : jsstring :=
  match lookup i caps with
  | Some (from, to) => substring input from to
  | None => []
  end.

Definition digitValue (c : codeunit) : nat := N.to_nat (c - 48).

(** GetSubstitution: the replacement template [tpl] expanded for the match
    of [input] between [from] and [to]: [$$], [$&], [$`], [$'] and [$n],
    [$nn] for the [ngroups] groups. *)
Fixpoint getSubstitution (tpl input : jsstring) (from to : nat)
    (caps : captures) (ngroups : nat) : jsstring :=
  match tpl with
  | [] => []
  | c :: t =>
      if negb (c =? 36) then c :: getSubstitution t input from to caps ngroups
      else
        match t with
        | [] => [c]
        | d :: t' =>
            let more := getSubstitution t' input from to caps ngroups in
            if d =? 36 then 36 :: more
            else if d =? 38 then substring input from to ++ more
            else if d =? 96 then firstn from input ++ more
            else if d =? 39 then skipn to input ++ more
            else if isDigit d then
              let one := digitValue d in
              match t' with
              | e :: t'' =>
                  let two := (10 * one + digitValue e)%nat in
                  if isDigit e && (1 <=? two)%nat && (two <=? ngroups)%nat
                  then capture input caps two
                       ++ getSubstitution t'' input from to caps ngroups
                  else if (1 <=? one)%nat && (one <=? ngroups)%nat
                  then capture input caps one ++ more
                  else c :: d :: more
              | [] =>
                  if (1 <=? one)%nat && (one <=? ngroups)%nat
                  then capture input caps one ++ more
                  else c :: d :: more
              end
            else c :: getSubstitution t input from to caps ngroups
        end
  end.

(** The loop of [replace] with a global expression.  [s] is the input from
    position [pos] on and [skip] the number of characters of [s] still inside
    the last match.  Outside a match the expression is tried at [pos]: a match
    is replaced by its substitution and the scan resumes at its end (one
    character further when it is empty); otherwise the character is kept. *)
Fixpoint replaceFrom (re : regexp) (tpl input : jsstring)
    (prev : option codeunit) (s : jsstring) (pos skip : nat) : jsstring :=
  match skip with
  | S skip' =>
      match s with
      | x :: s' => replaceFrom re tpl input (Some x) s' (S pos) skip'
      | [] => []
      end
  | O =>
      match matchAt re prev s pos with
      | Some (to, caps) =>
          getSubstitution tpl input pos to caps (groupCount (pattern re))
          ++ match s with
             | x :: s' =>
                 if (to =? pos)%nat
                 then x :: replaceFrom re tpl input (Some x) s' (S pos) O
                 else replaceFrom re tpl input (Some x) s' (S pos) (to - pos - 1)
             | [] => []
             end
      | None =>
          match s with
          | x :: s' => x :: replaceFrom re tpl input (Some x) s' (S pos) O
          | [] => []
          end
      end
  end.

(** [text.replace(re, tpl)] for a global [re]. *)
Definition replace (re : regexp) (tpl text : jsstring) : jsstring :=
  replaceFrom re tpl text None text O O.

(** The number of literals [c] of a pattern. *)
Fixpoint literals (c : codeunit) (r : list node) : nat :=
  match r with
  | [] => O
  | Lit x :: r' => if x =? c then S (literals c r') else literals c r'
  | _ :: r' => literals c r'
  end.

(** The previous character after reading [u] from a position whose previous
    character is [prev]. *)
Definition lastPrev (prev : option codeunit) (u : jsstring) : option codeunit :=
  fold_left (fun _ x => Some x) u prev.

(** A text of one line. *)
Definition noLineTerminator (s : jsstring) : Prop :=
  Forall (fun x => isLineTerminator x = false) s.

(** A body that does not start with white space. *)
Definition startsBody (body : jsstring) : Prop :=
  match body with
  | [] => True
  | x :: _ => inClass Space x = false
  end.

End Regex.

Import Regex.

(** ** Other runtime functions the validator calls *)

(** A string is truthy when it is not empty. *)
Definition truthy (s : jsstring) : bool :=
  match s with
  | [] => false
  | _ :: _ => true
  end.

(** [arr.includes(x)] on an array of strings. *)
Definition arrayIncludes (arr : list jsstring) (x : jsstring) : bool :=
  existsb (fun y => str_eqb y x) arr.

(** [arr.some(p)]. *)
Definition some {A : Type} (p : A -> bool) (arr : list A) : bool := existsb p arr.

Section ToLowerCase.

(** Basic Latin is lower-cased as the runtime does.  The lower-case mapping
    of the other code units is the runtime's Unicode table: it is a parameter
    here, applied one code unit at a time (the mappings of the table that
    depend on the neighbours of a character are not modelled). *)
Variable unicodeLower : codeunit -> jsstring.

Definition asciiLower (c : codeunit) : codeunit :=
  if (65 <=? c) && (c <=? 90) then c + 32 else c.

Definition lowerUnit (c : codeunit) : jsstring :=
  if c <? 128 then [asciiLower c] else unicodeLower c.

(** [s.toLowerCase()]. *)
Definition toLowerCase (s : jsstring) : jsstring := flat_map lowerUnit s.

End ToLowerCase.

(** The decimal digits of [n]; ["0"] for zero. *)
Definition decimal (n : N) : jsstring :=
  js (NilZero.string_of_uint (N.to_uint n)).

(** The integer closest to [num / den * 10^f], the larger one of two. *)
Definition roundScaled (num den : N) (f : nat) : N :=
  (2 * num * 10 ^ N.of_nat f + den) / (2 * den).

(** [x.toFixed(f)] for the number [x = num / den].  The quotients of the
    validator are a byte count below 2^53 over 2^20, which a double holds
    exactly, so [x] is this rational. *)
Definition toFixed (num den : N) (f : nat) : jsstring :=
  let m := decimal (roundScaled num den f) in
  match f with
  | O => m
  | S _ =>
      let m := repeat (ch "0") (f + 1 - length m) ++ m in
      let k := length m in
      firstn (k - f) m ++ js "." ++ skipn (k - f) m
  end.

(** ** The formatter's regular expressions and templates *)

Definition dq : jsstring := [34].          (* the double quote *)
Definition bullet : codeunit := 8226.      (* the bullet glyph of the templates *)

(** [<tag attr="value">] *)
Definition openTag (tag attr value : string) : jsstring :=
  js "<" ++ js tag ++ js " " ++ js attr ++ js "=" ++ dq ++ js value ++ dq
  ++ js ">".

(** [/\*\*(.*?)\*\*/g] *)
Definition re_bold : regexp :=
  mkRegexp [Lit (ch "*"); Lit (ch "*"); Open 1; LazyStar Dot; Close 1;
            Lit (ch "*"); Lit (ch "*")] false.

(** [/\*(.*?)\*/g] *)
Definition re_italic : regexp :=
  mkRegexp [Lit (ch "*"); Open 1; LazyStar Dot; Close 1; Lit (ch "*")] false.

(** [/^(\d+\.\s+)(.*$)/gm] *)
Definition re_numbered : regexp :=
  mkRegexp [Bol; Open 1; Plus Digit; Lit (ch "."); Plus Space; Close 1;
            Open 2; Star Dot; Eol; Close 2] true.

(** [/^[\*\-]\s+(.*$)/gm] *)
Definition re_bullet : regexp :=
  mkRegexp [Bol; Cls (OneOf [ch "*"; ch "-"]); Plus Space;
            Open 1; Star Dot; Eol; Close 1] true.

(** [/^###\s+(.*$)/gm] *)
Definition re_hashes3 : regexp :=
  mkRegexp [Bol; Lit (ch "#"); Lit (ch "#"); Lit (ch "#"); Plus Space;
            Open 1; Star Dot; Eol; Close 1] true.

(** [/^##\s+(.*$)/gm] *)
Definition re_hashes2 : regexp :=
  mkRegexp [Bol; Lit (ch "#"); Lit (ch "#"); Plus Space;
            Open 1; Star Dot; Eol; Close 1] true.

(** [/^#\s+(.*$)/gm] *)
Definition re_hashes1 : regexp :=
  mkRegexp [Bol; Lit (ch "#"); Plus Space;
            Open 1; Star Dot; Eol; Close 1] true.

(** [/\n/g] *)
Definition re_newline : regexp := mkRegexp [Lit 10] false.

Definition tpl_strong : jsstring := js "<strong>$1</strong>".
Definition tpl_em : jsstring := js "<em>$1</em>".
Definition tpl_br : jsstring := js "<br>".

(** The two passes every variant starts with. *)
Definition boldPass (text : jsstring) : jsstring :=
  replace re_bold tpl_strong text.
Definition italicPass (text : jsstring) : jsstring :=
  replace re_italic tpl_em text.

(** ** src/src/App.jsx *)

Module App.

Definition tpl_numbered : jsstring :=
  openTag "div" "style" "margin: 8px 0; padding-left: 12px;"
  ++ openTag "span" "style"
       "font-weight: 600; color: #007bff; margin-right: 8px;"
  ++ js "$1</span>$2</div>".

Definition tpl_bullet : jsstring :=
  openTag "div" "style" "margin: 6px 0; padding-left: 12px;"
  ++ [bullet] ++ js " $1</div>".

Definition tpl_h3 : jsstring :=
  openTag "h3" "style"
    "font-size: 18px; font-weight: 600; color: #34495e; margin: 12px 0 6px 0; line-height: 1.3;"
  ++ js "$1</h3>".

Definition tpl_h2 : jsstring :=
  openTag "h2" "style"
    "font-size: 20px; font-weight: 600; color: #2c3e50; margin: 16px 0 8px 0; line-height: 1.3;"
  ++ js "$1</h2>".

(** [formatText], App.jsx lines 191-214.  [if (!text) return text] is the
    first case: the empty string is the only falsy string. *)
Definition formatText (text : jsstring) : jsstring :=
  match text with
  | [] => text
  | _ =>
      let text := replace re_bold tpl_strong text in
      let text := replace re_italic tpl_em text in
      let text := replace re_numbered tpl_numbered text in
      let text := replace re_bullet tpl_bullet text in
      let text := replace re_hashes3 tpl_h3 text in
      let text := replace re_hashes2 tpl_h2 text in
      let text := replace re_newline tpl_br text in
      text
  end.

End App.

(** ** The class-based templates of the two sibling variants *)

Definition tpl_list_item : jsstring :=
  openTag "div" "class" "list-item" ++ openTag "span" "class" "list-number"
  ++ js "$1</span>$2</div>".

Definition tpl_bullet_item : jsstring :=
  openTag "div" "class" "bullet-item" ++ [bullet] ++ js " $1</div>".

Definition tpl_chat_h3 : jsstring := openTag "h3" "class" "chat-h3" ++ js "$1</h3>".
Definition tpl_chat_h2 : jsstring := openTag "h2" "class" "chat-h2" ++ js "$1</h2>".

(** ** The plain chat variant (src/unnamed/part_000) *)

Module Part000.

(** [formatText], part_000 lines 8-31: the last heading pass is [/^#\s+.../]. *)
Definition formatText (text : jsstring) : jsstring :=
  match text with
  | [] => text
  | _ =>
      let text := replace re_bold tpl_strong text in
      let text := replace re_italic tpl_em text in
      let text := replace re_numbered tpl_list_item text in
      let text := replace re_bullet tpl_bullet_item text in
      let text := replace re_hashes3 tpl_chat_h3 text in
      let text := replace re_hashes1 tpl_chat_h2 text in
      let text := replace re_newline tpl_br text in
      text
  end.

End Part000.

(** ** The document-upload variant (src/unnamed/part_001) *)

Module Part001.

(** [formatText], part_001 lines 26-49. *)
Definition formatText (text : jsstring) : jsstring :=
  match text with
  | [] => text
  | _ =>
      let text := replace re_bold tpl_strong text in
      let text := replace re_italic tpl_em text in
      let text := replace re_numbered tpl_list_item text in
      let text := replace re_bullet tpl_bullet_item text in
      let text := replace re_hashes3 tpl_chat_h3 text in
      let text := replace re_hashes2 tpl_chat_h2 text in
      let text := replace re_newline tpl_br text in
      text
  end.

(** The metadata of a selected file: [file.name], [file.type], [file.size]. *)
Record File : Type := mkFile {
  name : jsstring;
  type : jsstring;
  size : N
}.

Definition MAX_FILE_SIZE : N := 10 * 1024 * 1024.
Definition ALLOWED_EXTENSIONS : list jsstring :=
  [js ".pdf"; js ".doc"; js ".docx"].
Definition ALLOWED_MIME_TYPES : list jsstring :=
  [js "application/pdf";
   js "application/msword";
   js "application/vnd.openxmlformats-officedocument.wordprocessingml.document"].

Section Validator.

Variable unicodeLower : codeunit -> jsstring.

(** The local [hasValidExtension] of [validateFile]. *)
Definition hasValidExtension (file : File) : bool :=
  let fileName := toLowerCase unicodeLower (name file) in
  some (fun ext => endsWith fileName ext) ALLOWED_EXTENSIONS.

(** [validateFile], part_001 lines 56-90: the error message, or [None] for
    the [null] of a valid file.  The calls of [console.log] are left out. *)
Definition validateFile (file : File) : option jsstring :=
  if negb (hasValidExtension file) then
    Some (js "Only PDF and DOC/DOCX files are allowed. You selected: "
          ++ name file)
  else if truthy (type file)
          && negb (arrayIncludes ALLOWED_MIME_TYPES (type file)) then
    Some (js "Invalid file type detected. Expected: PDF or DOC/DOCX, Got: "
          ++ type file)
  else if MAX_FILE_SIZE <? size file then
    let fileSizeMB := toFixed (size file) (1024 * 1024) 2 in
    let maxSizeMB := toFixed MAX_FILE_SIZE (1024 * 1024) 0 in
    Some (js "File size (" ++ fileSizeMB
          ++ js "MB) exceeds the maximum limit of " ++ maxSizeMB ++ js "MB")
  else None.

(** The three checks as the specification words them, and the three
    rejection messages. *)
Definition extensionOk (file : File) : Prop :=
  exists ext p, In ext ALLOWED_EXTENSIONS
                /\ toLowerCase unicodeLower (name file) = p ++ ext.

Definition mimeOk (file : File) : Prop :=
  type file = [] \/ In (type file) ALLOWED_MIME_TYPES.

Definition sizeOk (file : File) : Prop := size file <= MAX_FILE_SIZE.

Definition extensionMessage (file : File) : jsstring :=
  js "Only PDF and DOC/DOCX files are allowed. You selected: " ++ name file.

Definition mimeMessage (file : File) : jsstring :=
  js "Invalid file type detected. Expected: PDF or DOC/DOCX, Got: "
  ++ type file.

(** The size message with the file's size to [f] decimals and the limit to
    [g] decimals. *)
Definition sizeMessage (f g : nat) (file : File) : jsstring :=
  js "File size (" ++ toFixed (size file) 1048576 f
  ++ js "MB) exceeds the maximum limit of " ++ toFixed MAX_FILE_SIZE 1048576 g
  ++ js "MB".

End Validator.

End Part001.


Import Part001.

(** ** Candidates of the specification's examples

    The examples run with a table that leaves the code units outside Basic
    Latin as they are. *)
Definition idLower : codeunit -> jsstring := fun c => [c].
Definition upperCasePdf : File := mkFile (js "A.PDF") (js "application/pdf") 100.
Definition oversizedPdf : File :=
  mkFile (js "a.pdf") (js "application/pdf") (11 * 1024 * 1024).
Definition textFile : File := mkFile (js "a.txt") (js "text/plain") 100.

(** * Properties *)

(** ** Strings *)

Lemma str_eqb_eq (a b : jsstring) : str_eqb a b = true <-> a = b.
Proof.
  revert b; induction a as [|x a IH]; intros [|y b]; simpl;
    try (split; [discriminate | discriminate]); try tauto.
  rewrite andb_true_iff, N.eqb_eq, IH.
  split; [intros [-> ->]; reflexivity | intros H; inversion H; auto].
Qed.

Lemma str_eqb_refl (a : jsstring) : str_eqb a a = true.
Proof. apply str_eqb_eq; reflexivity. Qed.

Lemma endsWith_spec (s p : jsstring) :
  endsWith s p = true <-> exists q, s = q ++ p.
Proof.
  unfold endsWith; rewrite andb_true_iff, Nat.leb_le, str_eqb_eq; split.
  - intros [Hlen Heq].
    exists (firstn (length s - length p) s).
    pose proof (firstn_skipn (length s - length p) s) as Hsplit.
    rewrite Heq in Hsplit; symmetry; exact Hsplit.
  - intros [q ->]; rewrite length_app; split; [lia|].
    replace (length q + length p - length p)%nat with (length q) by lia.
    rewrite skipn_app, skipn_all, Nat.sub_diag; reflexivity.
Qed.

Lemma arrayIncludes_spec (arr : list jsstring) (x : jsstring) :
  arrayIncludes arr x = true <-> In x arr.
Proof.
  unfold arrayIncludes; rewrite existsb_exists; split.
  - intros [y [Hin Heq]]; apply str_eqb_eq in Heq; subst; assumption.
  - intros Hin; exists x; split; [assumption | apply str_eqb_refl].
Qed.

Lemma truthy_false (s : jsstring) : truthy s = false <-> s = [].
Proof. destruct s; simpl; split; congruence. Qed.

Section LowerCaseFacts.

Variable unicodeLower : codeunit -> jsstring.

Lemma toLowerCase_app (a b : jsstring) :
  toLowerCase unicodeLower (a ++ b)
  = toLowerCase unicodeLower a ++ toLowerCase unicodeLower b.
Proof. unfold toLowerCase; apply flat_map_app. Qed.

(** Lower-casing a string whose ASCII fold is a Basic Latin string yields
    that string. *)
Lemma toLowerCase_fold (sfx ext : jsstring) :
  Forall (fun c => c < 128) ext ->
  map asciiLower sfx = ext ->
  toLowerCase unicodeLower sfx = ext.
Proof.
  revert ext; induction sfx as [|c sfx IH]; intros ext Hext Hmap.
  - subst; reflexivity.
  - destruct ext as [|e ext]; [discriminate|].
    inversion Hmap as [[He Hrest]]; inversion Hext as [|? ? Hlt Hext']; subst.
    unfold toLowerCase in *; simpl.
    rewrite (IH (map asciiLower sfx)) by (assumption || reflexivity).
    unfold lowerUnit.
    assert (Hc : c < 128).
    { unfold asciiLower in Hlt.
      destruct ((65 <=? c) && (c <=? 90)) eqn:E; [|assumption].
      apply andb_true_iff in E; destruct E as [_ E]; apply N.leb_le in E; lia. }
    apply N.ltb_lt in Hc; rewrite Hc; reflexivity.
Qed.

End LowerCaseFacts.

(** ** The validator *)

Lemma allowed_extensions_basic_latin (ext : jsstring) :
  In ext ALLOWED_EXTENSIONS -> Forall (fun c => c < 128) ext.
Proof.
  unfold ALLOWED_EXTENSIONS; simpl.
  intros [<-|[<-|[<-|[]]]]; repeat constructor.
Qed.

Lemma roundScaled_nearest (num den : N) (f : nat) :
  den <> 0 ->
  let n := roundScaled num den f in
  den * (2 * n) <= 2 * num * 10 ^ N.of_nat f + den < den * (2 * n + 2).
Proof.
  intros Hden n; subst n; unfold roundScaled.
  generalize (2 * num * 10 ^ N.of_nat f + den); intros a.
  assert (Hd : 2 * den <> 0) by lia.
  pose proof (N.div_mod a (2 * den) Hd) as Hdm.
  pose proof (N.mod_lt a (2 * den) Hd) as Hlt.
  revert Hdm Hlt.
  generalize (a / (2 * den)), (a mod (2 * den)).
  intros q r Hdm Hlt; nia.
Qed.

(** [toFixed] with two decimals shows the digits of the rounded hundredths,
    padded with zeros to three digits, with a point before the last two. *)
Lemma toFixed_two_decimals (num den : N) :
  exists ip fp,
    toFixed num den 2 = ip ++ js "." ++ fp
    /\ length fp = 2%nat
    /\ ip ++ fp
       = repeat (ch "0") (3 - length (decimal (roundScaled num den 2)))
         ++ decimal (roundScaled num den 2).
Proof.
  unfold toFixed.
  set (m := repeat (ch "0") (2 + 1 - length (decimal (roundScaled num den 2)))
            ++ decimal (roundScaled num den 2)).
  exists (firstn (length m - 2) m), (skipn (length m - 2) m).
  split; [reflexivity|].
  assert (Hlen : (3 <= length m)%nat).
  { unfold m; rewrite length_app, repeat_length; lia. }
  split; [rewrite length_skipn; lia | apply firstn_skipn].
Qed.

Section ValidatorFacts.

Variable unicodeLower : codeunit -> jsstring.


Lemma hasValidExtension_spec (file : File) :
  hasValidExtension unicodeLower file = true <-> extensionOk unicodeLower file.
Proof.
  unfold Part001.hasValidExtension, Part001.extensionOk, some.
  rewrite existsb_exists; split.
  - intros [ext [Hin Hends]]; apply endsWith_spec in Hends.
    destruct Hends as [q Hq]; exists ext, q; auto.
  - intros [ext [q [Hin Hq]]]; exists ext; split; [assumption|].
    apply endsWith_spec; exists q; assumption.
Qed.

Lemma hasValidExtension_false (file : File) :
  hasValidExtension unicodeLower file = false <-> ~ extensionOk unicodeLower file.
Proof.
  rewrite <- hasValidExtension_spec.
  destruct (hasValidExtension unicodeLower file); split; congruence.
Qed.

Lemma mimeCheck_spec (file : File) :
  truthy (type file) && negb (arrayIncludes ALLOWED_MIME_TYPES (type file))
  = false <-> mimeOk file.
Proof.
  unfold mimeOk.
  rewrite andb_false_iff, negb_false_iff, truthy_false, arrayIncludes_spec.
  tauto.
Qed.

Lemma mimeCheck_true (file : File) :
  truthy (type file) && negb (arrayIncludes ALLOWED_MIME_TYPES (type file))
  = true <-> ~ mimeOk file.
Proof.
  rewrite <- mimeCheck_spec.
  destruct (truthy (type file) && _); split; congruence.
Qed.

Lemma sizeCheck_spec (file : File) :
  (MAX_FILE_SIZE <? size file) = false <-> sizeOk file.
Proof. unfold sizeOk; rewrite N.ltb_ge; tauto. Qed.

(** The outcome of [validateFile], by the first check that fails. *)
Lemma validateFile_extension (file : File) :
  ~ extensionOk unicodeLower file -> validateFile unicodeLower file = Some (extensionMessage file).
Proof.
  intros H; apply hasValidExtension_false in H.
  unfold Part001.validateFile; rewrite H; reflexivity.
Qed.

Lemma validateFile_mime (file : File) :
  extensionOk unicodeLower file -> ~ mimeOk file ->
  validateFile unicodeLower file = Some (mimeMessage file).
Proof.
  intros He Hm; apply hasValidExtension_spec in He; apply mimeCheck_true in Hm.
  unfold Part001.validateFile; rewrite He, Hm; reflexivity.
Qed.

Lemma validateFile_size (file : File) :
  extensionOk unicodeLower file -> mimeOk file -> ~ sizeOk file ->
  validateFile unicodeLower file = Some (sizeMessage 2 0 file).
Proof.
  intros He Hm Hs; apply hasValidExtension_spec in He.
  apply mimeCheck_spec in Hm.
  assert (Hlt : (MAX_FILE_SIZE <? size file) = true).
  { apply N.ltb_lt; unfold sizeOk in Hs; lia. }
  unfold Part001.validateFile; rewrite He, Hm, Hlt; reflexivity.
Qed.

Lemma validateFile_accepts (file : File) :
  validateFile unicodeLower file = None <-> extensionOk unicodeLower file /\ mimeOk file /\ sizeOk file.
Proof.
  rewrite <- hasValidExtension_spec, <- mimeCheck_spec, <- sizeCheck_spec.
  unfold Part001.validateFile.
  destruct (hasValidExtension unicodeLower file); simpl;
    [|split; [discriminate | intros [? _]; discriminate]].
  destruct (truthy (type file) && _); simpl;
    [split; [discriminate | intros [_ [? _]]; discriminate]|].
  destruct (MAX_FILE_SIZE <? size file); simpl;
    [split; [discriminate | intros [_ [_ ?]]; discriminate]|].
  tauto.
Qed.

Lemma lowerUnit_asciiLower (c : codeunit) :
  lowerUnit unicodeLower (asciiLower c) = lowerUnit unicodeLower c.
Proof.
  unfold lowerUnit, asciiLower.
  destruct ((65 <=? c) && (c <=? 90)) eqn:E; [|rewrite E; reflexivity].
  apply andb_true_iff in E; destruct E as [E1 E2].
  apply N.leb_le in E1, E2.
  assert (H1 : (c + 32 <? 128) = true) by (apply N.ltb_lt; lia).
  assert (H2 : (c <? 128) = true) by (apply N.ltb_lt; lia).
  assert (H3 : (65 <=? c + 32) && (c + 32 <=? 90) = false).
  { apply andb_false_iff; right; apply N.leb_gt; lia. }
  rewrite H1, H2, H3; reflexivity.
Qed.

Lemma toLowerCase_asciiLower (s : jsstring) :
  toLowerCase unicodeLower (map asciiLower s) = toLowerCase unicodeLower s.
Proof.
  unfold toLowerCase; induction s as [|c s IH]; simpl; [reflexivity|].
  rewrite lowerUnit_asciiLower, IH; reflexivity.
Qed.

End ValidatorFacts.

Section ValidatorClaims.

Variable unicodeLower : codeunit -> jsstring.

(** C1.  [validateFile] applies the extension check, then the MIME-type
    check, then the size check, and the first check that fails decides the
    message: a file that fails the extension check gets the extension message
    whatever its type and size are.  The file is accepted exactly when the
    three checks pass, and a file of exactly [MAX_FILE_SIZE] bytes passes the
    size check. *)
Theorem validateFile_check_order (file : File) :
  (~ extensionOk unicodeLower file ->
     validateFile unicodeLower file = Some (extensionMessage file))
  /\ (extensionOk unicodeLower file -> ~ mimeOk file ->
     validateFile unicodeLower file = Some (mimeMessage file))
  /\ (extensionOk unicodeLower file -> mimeOk file -> ~ sizeOk file ->
     validateFile unicodeLower file = Some (sizeMessage 2 0 file))
  /\ (validateFile unicodeLower file = None <->
     extensionOk unicodeLower file /\ mimeOk file /\ sizeOk file)
  /\ (extensionOk unicodeLower file -> mimeOk file ->
     size file = MAX_FILE_SIZE -> validateFile unicodeLower file = None).
Proof.
  split; [apply validateFile_extension|].
  split; [apply validateFile_mime|].
  split; [apply validateFile_size|].
  split; [apply validateFile_accepts|].
  intros He Hm Hs; apply validateFile_accepts.
  repeat split; try assumption.
  unfold sizeOk; rewrite Hs; apply N.le_refl.
Qed.

(** C3, as the code has it.  A file that passes the extension and MIME-type
    checks and is larger than [MAX_FILE_SIZE] is rejected with a message
    that gives its size in megabytes (bytes / 1,048,576) to two decimals
    and the limit in whole megabytes, ["10"].  The hundredths [n] shown are
    the nearest ones (the larger of two), written with a point before the
    last two digits. *)
Theorem validateFile_size_message (file : File) :
  extensionOk unicodeLower file -> mimeOk file ->
  MAX_FILE_SIZE < size file ->
  validateFile unicodeLower file
  = Some (js "File size (" ++ toFixed (size file) 1048576 2
          ++ js "MB) exceeds the maximum limit of 10MB")
  /\ toFixed MAX_FILE_SIZE 1048576 0 = js "10"
  /\ (let n := roundScaled (size file) 1048576 2 in
      1048576 * (2 * n) <= 200 * size file + 1048576 < 1048576 * (2 * n + 2)
      /\ exists ip fp,
           toFixed (size file) 1048576 2 = ip ++ js "." ++ fp
           /\ length fp = 2%nat
           /\ ip ++ fp = repeat (ch "0") (3 - length (decimal n)) ++ decimal n).
Proof.
  intros He Hm Hs; split; [|split; [|split]].
  - rewrite validateFile_size; try assumption.
    + reflexivity.
    + unfold sizeOk; lia.
  - reflexivity.
  - pose proof (roundScaled_nearest (size file) 1048576 2) as H.
    assert (Hne : 1048576 <> 0) by discriminate.
    specialize (H Hne); cbv zeta in H |- *.
    change (10 ^ N.of_nat 2) with 100 in H; lia.
  - apply toFixed_two_decimals.
Qed.

(** C5.  An empty declared type skips the MIME-type check: with an allowed
    extension and a size within the limit the file is accepted.  A declared
    type that is not empty and not one of [ALLOWED_MIME_TYPES] is always
    rejected, and when the check is reached (the extension check before it
    passed) the message names the expected types and the received one. *)
Theorem validateFile_mime_check (file : File) :
  (type file = [] -> extensionOk unicodeLower file -> sizeOk file ->
     validateFile unicodeLower file = None)
  /\ (type file <> [] -> ~ In (type file) ALLOWED_MIME_TYPES ->
     (exists reason, validateFile unicodeLower file = Some reason)
     /\ (extensionOk unicodeLower file ->
         validateFile unicodeLower file
         = Some (js "Invalid file type detected. Expected: PDF or DOC/DOCX, Got: "
                 ++ type file))).
Proof.
  split.
  - intros Ht He Hs; apply validateFile_accepts.
    repeat split; try assumption; left; assumption.
  - intros Ht Hn.
    assert (Hm : ~ mimeOk file) by (unfold mimeOk; tauto).
    split.
    + destruct (hasValidExtension unicodeLower file) eqn:E.
      * apply hasValidExtension_spec in E.
        eexists; apply validateFile_mime; assumption.
      * apply hasValidExtension_false in E.
        eexists; apply validateFile_extension; assumption.
    + intros He; apply validateFile_mime; assumption.
Qed.

(** C6.  The extension check is made on the lower-cased name: ["A.PDF"] with
    the PDF type and 100 bytes is accepted, the check gives one answer for a
    name and for its ASCII lower-casing, and any two names with one
    lower-casing; a name whose lower-casing ends with no allowed extension is
    rejected with a message that ends with the name as it was given. *)
Theorem validateFile_extension_check :
  validateFile unicodeLower upperCasePdf = None
  /\ (forall file,
        hasValidExtension unicodeLower file
        = hasValidExtension unicodeLower
            (mkFile (map asciiLower (name file)) (type file) (size file)))
  /\ (forall f g,
        toLowerCase unicodeLower (name f) = toLowerCase unicodeLower (name g) ->
        hasValidExtension unicodeLower f = hasValidExtension unicodeLower g)
  /\ (forall file,
        (forall ext, In ext ALLOWED_EXTENSIONS ->
           endsWith (toLowerCase unicodeLower (name file)) ext = false) ->
        validateFile unicodeLower file
        = Some (js "Only PDF and DOC/DOCX files are allowed. You selected: "
                ++ name file)).
Proof.
  split; [reflexivity|].
  split; [|split].
  - intros file; unfold hasValidExtension; simpl.
    rewrite toLowerCase_asciiLower; reflexivity.
  - intros f g H; unfold hasValidExtension; rewrite H; reflexivity.
  - intros file H; apply validateFile_extension.
    intros [ext [p [Hin Hp]]].
    specialize (H ext Hin).
    assert (Ht : endsWith (toLowerCase unicodeLower (name file)) ext = true)
      by (apply endsWith_spec; exists p; assumption).
    congruence.
Qed.

(** C10.  Only the end of the name is inspected: a name [p ++ sfx] whose end
    [sfx] is an allowed extension up to ASCII case passes the extension check
    whatever [p] is (empty, or ending in another extension), and with an
    empty declared type and a size within the limit the file is accepted. *)
Theorem validateFile_suffix_only (file : File) (p sfx ext : jsstring) :
  In ext ALLOWED_EXTENSIONS ->
  map asciiLower sfx = ext ->
  name file = p ++ sfx ->
  type file = [] ->
  size file <= MAX_FILE_SIZE ->
  hasValidExtension unicodeLower file = true
  /\ validateFile unicodeLower file = None.
Proof.
  intros Hin Hfold Hname Htype Hsize.
  assert (He : extensionOk unicodeLower file).
  { exists ext, (toLowerCase unicodeLower p); split; [assumption|].
    rewrite Hname, toLowerCase_app.
    rewrite (toLowerCase_fold unicodeLower sfx ext);
      auto using allowed_extensions_basic_latin. }
  split; [apply hasValidExtension_spec; assumption|].
  apply validateFile_accepts; repeat split; try assumption.
  left; assumption.
Qed.

End ValidatorClaims.

(** A 10 MiB PDF is accepted and one byte more is rejected for its size. *)
Example validateFile_at_the_limit :
  validateFile idLower (mkFile (js "a.pdf") (js "application/pdf") MAX_FILE_SIZE)
  = None
  /\ validateFile idLower
       (mkFile (js "a.pdf") (js "application/pdf") (MAX_FILE_SIZE + 1))
     = Some (js "File size (10.00MB) exceeds the maximum limit of 10MB").
Proof. split; reflexivity. Qed.

(** The text file of the specification's examples is rejected for its
    extension. *)
Example validateFile_text_file :
  validateFile idLower textFile
  = Some (js "Only PDF and DOC/DOCX files are allowed. You selected: a.txt").
Proof. reflexivity. Qed.

(** The extension message wins over a bad type and a bad size. *)
Example validateFile_short_circuit :
  validateFile idLower (mkFile (js "a.txt") (js "text/plain") (MAX_FILE_SIZE + 1))
  = Some (js "Only PDF and DOC/DOCX files are allowed. You selected: a.txt").
Proof. reflexivity. Qed.

Lemma validateFile_size_message_witness :
  validateFile idLower oversizedPdf
  = Some (js "File size (11.00MB) exceeds the maximum limit of 10MB").
Proof.
  refine (proj1 (validateFile_size_message idLower oversizedPdf _ _ _)).
  - apply hasValidExtension_spec; reflexivity.
  - right; simpl; auto.
  - reflexivity.
Defined.

(** The size message states the limit as ["10"], not to two decimals: the
    message of the 11 MiB PDF is not the one with both sizes to two decimals,
    and ["10.00"] does not occur in it. *)
Lemma size_message_limit_not_two_decimals :
  validateFile idLower oversizedPdf
  = Some (js "File size (11.00MB) exceeds the maximum limit of 10MB")
  /\ validateFile idLower oversizedPdf <> Some (sizeMessage 2 2 oversizedPdf)
  /\ toFixed MAX_FILE_SIZE 1048576 2 = js "10.00"
  /\ includes (js "File size (11.00MB) exceeds the maximum limit of 10MB")
       (toFixed MAX_FILE_SIZE 1048576 2) = false.
Proof.
  split; [reflexivity|].
  split; [vm_compute; discriminate|].
  split; reflexivity.
Qed.

Lemma validateFile_suffix_only_witness :
  validateFile idLower (mkFile (js "report.exe.pdf") [] 100) = None
  /\ validateFile idLower (mkFile (js ".pdf") [] 100) = None
  /\ validateFile idLower (mkFile (js "notes.txt.DocX") [] 100) = None.
Proof.
  split; [|split].
  - refine (proj2 (validateFile_suffix_only idLower
             (mkFile (js "report.exe.pdf") [] 100)
             (js "report.exe") (js ".pdf") (js ".pdf") _ _ _ _ _));
      try reflexivity; [simpl; auto | discriminate].
  - refine (proj2 (validateFile_suffix_only idLower
             (mkFile (js ".pdf") [] 100) [] (js ".pdf") (js ".pdf") _ _ _ _ _));
      try reflexivity; [simpl; auto | discriminate].
  - refine (proj2 (validateFile_suffix_only idLower
             (mkFile (js "notes.txt.DocX") [] 100)
             (js "notes.txt") (js ".DocX") (js ".docx") _ _ _ _ _));
      try reflexivity; [simpl; auto | discriminate].
Defined.

(** ** The matcher *)

Lemma occurrences_app (c : codeunit) (u t : jsstring) :
  occurrences c (u ++ t) = (occurrences c u + occurrences c t)%nat.
Proof.
  induction u as [|x u IH]; simpl; [reflexivity|].
  destruct (x =? c); rewrite IH; reflexivity.
Qed.

Lemma occurrences_cons_le (c x : codeunit) (s : jsstring) :
  (occurrences c s <= occurrences c (x :: s))%nat.
Proof. simpl; destruct (x =? c); lia. Qed.

(** A quantified class hands the rest of the match a suffix of its input. *)
Lemma greedy_inv (cl : cclass) (k : cont) (s : jsstring) :
  forall prev pos r,
    greedy cl k prev s pos = Some r ->
    exists u t p n, s = u ++ t /\ k p t n = Some r.
Proof.
  induction s as [|x s IH]; intros prev pos r H; simpl in H.
  - exists [], [], prev, pos; auto.
  - destruct (inClass cl x).
    + destruct (greedy cl k (Some x) s (S pos)) as [r'|] eqn:E.
      * inversion H; subst r'.
        destruct (IH _ _ _ E) as [u [t [p [n [Hs Hk]]]]].
        exists (x :: u), t, p, n; subst s; auto.
      * exists [], (x :: s), prev, pos; auto.
    + exists [], (x :: s), prev, pos; auto.
Qed.

Lemma nongreedy_inv (cl : cclass) (k : cont) (s : jsstring) :
  forall prev pos r,
    nongreedy cl k prev s pos = Some r ->
    exists u t p n, s = u ++ t /\ k p t n = Some r.
Proof.
  induction s as [|x s IH]; intros prev pos r H; simpl in H.
  - destruct (k prev [] pos) eqn:E; [|discriminate].
    exists [], [], prev, pos; split; [reflexivity | congruence].
  - destruct (k prev (x :: s) pos) eqn:E.
    + exists [], (x :: s), prev, pos; split; [reflexivity | congruence].
    + destruct (inClass cl x); [|discriminate].
      destruct (IH _ _ _ H) as [u [t [p [n [Hs Hk]]]]].
      exists (x :: u), t, p, n; subst s; auto.
Qed.

(** A match consumes every literal of the pattern. *)
Lemma run_literals (c : codeunit) (m : bool) (r : list node) :
  forall prev s pos caps res,
    run m r prev s pos caps = Some res ->
    (literals c r <= occurrences c s)%nat.
Proof.
  induction r as [|nd r IH]; intros prev s pos caps res H; [simpl; lia|].
  destruct nd as [x|cl|cl|cl|cl| | |i|i]; simpl in H |- *.
  - destruct s as [|y s]; [discriminate|].
    destruct (y =? x) eqn:E; [|discriminate].
    apply N.eqb_eq in E; subst y.
    apply IH in H; simpl; destruct (x =? c); lia.
  - destruct s as [|y s]; [discriminate|].
    destruct (inClass cl y); [|discriminate].
    apply IH in H; pose proof (occurrences_cons_le c y s); lia.
  - apply greedy_inv in H; destruct H as [u [t [p [n [Hs Hk]]]]].
    apply IH in Hk; subst s; rewrite occurrences_app; lia.
  - apply nongreedy_inv in H; destruct H as [u [t [p [n [Hs Hk]]]]].
    apply IH in Hk; subst s; rewrite occurrences_app; lia.
  - destruct s as [|y s]; [discriminate|].
    destruct (inClass cl y); [|discriminate].
    apply greedy_inv in H; destruct H as [u [t [p [n [Hs Hk]]]]].
    apply IH in Hk; subst s.
    pose proof (occurrences_cons_le c y (u ++ t)) as Hle.
    rewrite occurrences_app in Hle; lia.
  - destruct (atLineStart m prev); [|discriminate]; eapply IH; eassumption.
  - destruct (atLineEnd m s); [|discriminate]; eapply IH; eassumption.
  - eapply IH; eassumption.
  - eapply IH; eassumption.
Qed.

(** With fewer [c] in the text than literals [c] in the pattern nothing
    matches, and [replace] returns the text as it is. *)
Lemma replaceFrom_too_few (c : codeunit) (re : regexp) (tpl input : jsstring) :
  forall s prev pos,
    (occurrences c s < literals c (pattern re))%nat ->
    replaceFrom re tpl input prev s pos O = s.
Proof.
  induction s as [|x s IH]; intros prev pos Hlt.
  - simpl. destruct (matchAt re prev [] pos) as [[to caps]|] eqn:E;
      [|reflexivity].
    apply (run_literals c) in E; simpl in *; lia.
  - simpl. destruct (matchAt re prev (x :: s) pos) as [[to caps]|] eqn:E.
    + apply (run_literals c) in E; lia.
    + rewrite IH; [reflexivity|].
      pose proof (occurrences_cons_le c x s); lia.
Qed.

Lemma replace_too_few (c : codeunit) (re : regexp) (tpl text : jsstring) :
  (occurrences c text < literals c (pattern re))%nat ->
  replace re tpl text = text.
Proof. apply replaceFrom_too_few. Qed.

(** A match consumes a character of every class the pattern asks one of. *)
Lemma run_class (cl : cclass) (m : bool) (r : list node) :
  In (Plus cl) r \/ In (Cls cl) r ->
  forall prev s pos caps res,
    run m r prev s pos caps = Some res ->
    exists x, In x s /\ inClass cl x = true.
Proof.
  induction r as [|nd r IH]; intros Hin prev s pos caps res H;
    [destruct Hin as [[]|[]]|].
  assert (Hrest : nd = Plus cl \/ nd = Cls cl \/ In (Plus cl) r \/ In (Cls cl) r)
    by (simpl in Hin; tauto).
  clear Hin.
  assert (Hsuffix : forall u t p n,
            s = u ++ t -> In (Plus cl) r \/ In (Cls cl) r ->
            run m r p t n caps = Some res ->
            exists x, In x s /\ inClass cl x = true).
  { intros u t p n Hs Hr Hk.
    destruct (IH Hr _ _ _ _ _ Hk) as [x [Hx Hc]].
    exists x; split; [subst s; apply in_or_app; auto | assumption]. }
  destruct nd as [x|cl'|cl'|cl'|cl'| | |i|i]; simpl in H;
    destruct Hrest as [Hnd|[Hnd|Hr]]; try discriminate.
  - destruct s as [|y s]; [discriminate|].
    destruct (y =? x); [|discriminate].
    destruct (IH Hr _ _ _ _ _ H) as [z [Hz Hc]]; exists z; simpl; auto.
  - inversion Hnd; subst cl'.
    destruct s as [|y s]; [discriminate|].
    destruct (inClass cl y) eqn:E; [|discriminate].
    exists y; simpl; auto.
  - destruct s as [|y s]; [discriminate|].
    destruct (inClass cl' y); [|discriminate].
    destruct (IH Hr _ _ _ _ _ H) as [z [Hz Hc]]; exists z; simpl; auto.
  - apply greedy_inv in H; destruct H as [u [t [p [n [Hs Hk]]]]].
    eapply Hsuffix; eassumption.
  - apply nongreedy_inv in H; destruct H as [u [t [p [n [Hs Hk]]]]].
    eapply Hsuffix; eassumption.
  - inversion Hnd; subst cl'.
    destruct s as [|y s]; [discriminate|].
    destruct (inClass cl y) eqn:E; [|discriminate].
    exists y; simpl; auto.
  - destruct s as [|y s]; [discriminate|].
    destruct (inClass cl' y); [|discriminate].
    apply greedy_inv in H; destruct H as [u [t [p [n [Hs Hk]]]]].
    destruct (IH Hr _ _ _ _ _ Hk) as [z [Hz Hc]].
    exists z; split; [subst s; right; apply in_or_app; auto | assumption].
  - destruct (atLineStart m prev); [|discriminate].
    exact (Hsuffix [] s prev pos eq_refl Hr H).
  - destruct (atLineEnd m s); [|discriminate].
    exact (Hsuffix [] s prev pos eq_refl Hr H).
  - eapply IH; eassumption.
  - eapply IH; eassumption.
Qed.

(** Without a character of a class the pattern asks for nothing matches,
    and [replace] returns the text as it is. *)
Lemma replaceFrom_no_class (cl : cclass) (re : regexp) (tpl input : jsstring) :
  In (Plus cl) (pattern re) \/ In (Cls cl) (pattern re) ->
  forall s prev pos,
    Forall (fun x => inClass cl x = false) s ->
    replaceFrom re tpl input prev s pos O = s.
Proof.
  intros Hin; induction s as [|x s IH]; intros prev pos Hall; simpl.
  - destruct (matchAt re prev [] pos) as [[to caps]|] eqn:E; [|reflexivity].
    destruct (run_class cl _ _ Hin _ _ _ _ _ E) as [z [[] _]].
  - destruct (matchAt re prev (x :: s) pos) as [[to caps]|] eqn:E.
    + destruct (run_class cl _ _ Hin _ _ _ _ _ E) as [z [Hz Hc]].
      rewrite Forall_forall in Hall; rewrite (Hall z Hz) in Hc; discriminate.
    + inversion Hall; subst; rewrite IH; auto.
Qed.

Lemma replace_no_class (cl : cclass) (re : regexp) (tpl text : jsstring) :
  In (Plus cl) (pattern re) \/ In (Cls cl) (pattern re) ->
  Forall (fun x => inClass cl x = false) text ->
  replace re tpl text = text.
Proof. intros Hin Hall; apply (replaceFrom_no_class cl); assumption. Qed.

(** *** Matches over a run of characters *)

Lemma firstn_length_app (a b : jsstring) : firstn (length a) (a ++ b) = a.
Proof. induction a as [|x a IH]; simpl; [destruct b|rewrite IH]; reflexivity. Qed.

Lemma substring_middle (u a b : jsstring) :
  substring (u ++ a ++ b) (length u) (length u + length a)%nat = a.
Proof.
  unfold substring.
  replace (length u + length a - length u)%nat with (length a) by lia.
  rewrite skipn_app, skipn_all, Nat.sub_diag; simpl.
  apply firstn_length_app.
Qed.

(** [cl*?] steps over characters of [cl] at which the rest cannot start. *)
Lemma nongreedy_skip (cl : cclass) (k : cont) (a rest : jsstring) :
  Forall (fun x => inClass cl x = true) a ->
  (forall x t p n, In x a -> k p (x :: t) n = None) ->
  forall prev pos,
    nongreedy cl k prev (a ++ rest) pos
    = nongreedy cl k (lastPrev prev a) rest (pos + length a)%nat.
Proof.
  induction a as [|x a IH]; intros Hcl Hk prev pos.
  - simpl; rewrite Nat.add_0_r; reflexivity.
  - inversion Hcl as [|? ? Hx Hcl']; subst.
    simpl; rewrite (Hk x), Hx by (left; reflexivity).
    rewrite IH; [|assumption|intros; apply Hk; right; assumption].
    rewrite Nat.add_succ_r; reflexivity.
Qed.

(** [cl*] takes a whole run of [cl] when the rest accepts the end. *)
Lemma greedy_all (cl : cclass) (k : cont) (a : jsstring) :
  Forall (fun x => inClass cl x = true) a ->
  forall prev pos r,
    k (lastPrev prev a) [] (pos + length a)%nat = Some r ->
    greedy cl k prev a pos = Some r.
Proof.
  induction a as [|x a IH]; intros Hcl prev pos r Hk.
  - simpl in *; rewrite Nat.add_0_r in Hk; assumption.
  - inversion Hcl as [|? ? Hx Hcl']; subst.
    simpl; rewrite Hx, (IH Hcl' (Some x) (S pos) r); [reflexivity|].
    simpl in Hk; rewrite Nat.add_succ_r in Hk; assumption.
Qed.

(** [cl*] takes nothing where no character of [cl] stands. *)
Lemma greedy_stop (cl : cclass) (k : cont) (s : jsstring) prev pos :
  match s with [] => True | x :: _ => inClass cl x = false end ->
  greedy cl k prev s pos = k prev s pos.
Proof. destruct s as [|x s]; simpl; [reflexivity | intros ->; reflexivity]. Qed.

(** Inside a match [replace] copies nothing. *)
Lemma replaceFrom_skip (re : regexp) (tpl input : jsstring) (u t : jsstring) :
  forall prev pos,
    replaceFrom re tpl input prev (u ++ t) pos (length u)
    = replaceFrom re tpl input (lastPrev prev u) t (pos + length u)%nat O.
Proof.
  induction u as [|x u IH]; intros prev pos.
  - simpl app; simpl length; rewrite Nat.add_0_r; reflexivity.
  - simpl; rewrite IH, Nat.add_succ_r; reflexivity.
Qed.

(** One step of [replace] at a match that is not empty. *)
Lemma replaceFrom_match (re : regexp) (tpl input : jsstring)
    prev x s pos len caps :
  matchAt re prev (x :: s) pos = Some ((pos + S len)%nat, caps) ->
  replaceFrom re tpl input prev (x :: s) pos O
  = getSubstitution tpl input pos (pos + S len)%nat caps
      (groupCount (pattern re))
    ++ replaceFrom re tpl input (Some x) s (S pos) len.
Proof.
  intros H; simpl; rewrite H.
  replace (pos + S len =? pos)%nat with false
    by (symmetry; apply Nat.eqb_neq; lia).
  replace (pos + S len - pos - 1)%nat with len by lia.
  reflexivity.
Qed.

(** *** Anchored patterns on a single line *)

Lemma replaceFrom_anchored (re : regexp) (tpl input : jsstring) (r : list node) :
  pattern re = Bol :: r ->
  forall s c pos,
    isLineTerminator c = false -> noLineTerminator s ->
    replaceFrom re tpl input (Some c) s pos O = s.
Proof.
  intros Hre; induction s as [|x s IH]; intros c pos Hc Hs;
    simpl; unfold matchAt; rewrite Hre; simpl; rewrite Hc, andb_false_r.
  - reflexivity.
  - inversion Hs; subst; rewrite IH; auto.
Qed.

(** A pattern anchored at the line start that does not match at the start
    of a one-line text leaves the text as it is. *)
Lemma replace_anchored (re : regexp) (tpl : jsstring) (r : list node)
    (x : codeunit) (s : jsstring) :
  pattern re = Bol :: r ->
  matchAt re None (x :: s) O = None ->
  noLineTerminator (x :: s) ->
  replace re tpl (x :: s) = x :: s.
Proof.
  intros Hre Hnone Hs; inversion Hs; subst.
  unfold replace; simpl; rewrite Hnone.
  erewrite replaceFrom_anchored; eauto.
Qed.

Lemma noLineTerminator_app (a b : jsstring) :
  noLineTerminator a -> noLineTerminator b -> noLineTerminator (a ++ b).
Proof. intros; apply Forall_app; auto. Qed.

Lemma noLineTerminator_newlines (s : jsstring) :
  noLineTerminator s -> occurrences 10 s = O.
Proof.
  induction 1 as [|x l Hx _ IH]; simpl; [reflexivity|].
  destruct (x =? 10) eqn:E; [|assumption].
  apply N.eqb_eq in E; subst x; discriminate.
Qed.

(** ** The formatter *)

(** The bold and the italic pass leave a text with at most one asterisk as
    it is. *)
Lemma inline_passes_lone_asterisk (text : jsstring) :
  (occurrences (ch "*") text <= 1)%nat ->
  replace re_italic tpl_em (replace re_bold tpl_strong text) = text.
Proof.
  intros H.
  rewrite (replace_too_few (ch "*") re_bold)
    by (change (literals (ch "*") (pattern re_bold)) with 4%nat; lia).
  apply (replace_too_few (ch "*")).
  change (literals (ch "*") (pattern re_italic)) with 2%nat; lia.
Qed.

(** The line passes all ask for white space; a new line is white space. *)
Lemma line_passes_no_space (text : jsstring) (t3 t4 t5 t6 : jsstring)
    (re6 : regexp) :
  In (Plus Space) (pattern re6) ->
  Forall (fun x => isWhiteSpace x = false) text ->
  replace re_newline tpl_br
    (replace re6 t6
       (replace re_hashes3 t5
          (replace re_bullet t4 (replace re_numbered t3 text)))) = text.
Proof.
  intros H6 Hall.
  rewrite (replace_no_class Space re_numbered) by (simpl; auto 12).
  rewrite (replace_no_class Space re_bullet) by (simpl; auto 12).
  rewrite (replace_no_class Space re_hashes3) by (simpl; auto 12).
  rewrite (replace_no_class Space re6) by auto.
  apply (replace_too_few 10).
  change (literals 10 (pattern re_newline)) with 1%nat.
  induction Hall as [|x l Hx _ IH]; simpl; [lia|].
  destruct (x =? 10) eqn:E; [|assumption].
  apply N.eqb_eq in E; subst x; discriminate.
Qed.

(** Every variant starts with the bold pass, then the italic pass, each pass
    reading the text the pass before it wrote. *)
Lemma formatText_pipeline (text : jsstring) :
  text <> [] ->
  App.formatText text
  = replace re_newline tpl_br
      (replace re_hashes2 App.tpl_h2
         (replace re_hashes3 App.tpl_h3
            (replace re_bullet App.tpl_bullet
               (replace re_numbered App.tpl_numbered
                  (italicPass (boldPass text)))))).
Proof. destruct text; [congruence | reflexivity]. Qed.

(** A match that reaches the end of the text. *)
Lemma replaceFrom_match_all (re : regexp) (tpl input : jsstring)
    prev x s pos caps :
  matchAt re prev (x :: s) pos = Some ((pos + S (length s))%nat, caps) ->
  replaceFrom re tpl input prev (x :: s) pos O
  = getSubstitution tpl input pos (pos + S (length s))%nat caps
      (groupCount (pattern re))
    ++ replaceFrom re tpl input (lastPrev (Some x) s) []
         (S pos + length s)%nat O.
Proof.
  intros H; rewrite (replaceFrom_match _ _ _ _ _ _ _ _ _ H).
  f_equal.
  pose proof (replaceFrom_skip re tpl input s [] (Some x) (S pos)) as Hs.
  rewrite app_nil_r in Hs; exact Hs.
Qed.

(** *** The spans of the bold and italic passes *)

Lemma occurrences_zero_in (c : codeunit) (a : jsstring) (x : codeunit) :
  occurrences c a = O -> In x a -> (x =? c) = false.
Proof.
  induction a as [|y a IH]; simpl; [tauto|].
  destruct (y =? c) eqn:E; [discriminate|].
  intros H [<-|Hin]; auto.
Qed.

Lemma noLineTerminator_dot (a : jsstring) :
  noLineTerminator a -> Forall (fun x => inClass Dot x = true) a.
Proof.
  unfold noLineTerminator; apply Forall_impl; intros x Hx; simpl.
  rewrite Hx; reflexivity.
Qed.

Lemma bold_match (a rest : jsstring) :
  occurrences (ch "*") a = O -> noLineTerminator a ->
  matchAt re_bold None (js "**" ++ a ++ js "**" ++ rest) O
  = Some ((0 + S (length a + 3))%nat,
          [(1, (2, 2 + length a)); (1, (2, 2))]%nat).
Proof.
  intros Hstar Hlt.
  unfold matchAt; simpl.
  rewrite nongreedy_skip.
  - simpl; do 2 f_equal; lia.
  - apply noLineTerminator_dot; assumption.
  - intros x t p n Hin; simpl.
    pose proof (occurrences_zero_in _ _ _ Hstar Hin) as Hx.
    change (ch "*") with 42 in Hx; rewrite Hx; reflexivity.
Qed.

Lemma italic_match (a rest : jsstring) :
  occurrences (ch "*") a = O -> noLineTerminator a ->
  matchAt re_italic None (js "*" ++ a ++ js "*" ++ rest) O
  = Some ((0 + S (length a + 1))%nat,
          [(1, (1, 1 + length a)); (1, (1, 1))]%nat).
Proof.
  intros Hstar Hlt.
  unfold matchAt; simpl.
  rewrite nongreedy_skip.
  - simpl; do 2 f_equal; lia.
  - apply noLineTerminator_dot; assumption.
  - intros x t p n Hin; simpl.
    pose proof (occurrences_zero_in _ _ _ Hstar Hin) as Hx.
    change (ch "*") with 42 in Hx; rewrite Hx; reflexivity.
Qed.

(** The substitutions of the two templates. *)
Lemma getSubstitution_strong (input : jsstring) (from to : nat) (caps : captures) :
  getSubstitution tpl_strong input from to caps 1
  = js "<strong>" ++ capture input caps 1 ++ js "</strong>".
Proof. reflexivity. Qed.

Lemma getSubstitution_em (input : jsstring) (from to : nat) (caps : captures) :
  getSubstitution tpl_em input from to caps 1
  = js "<em>" ++ capture input caps 1 ++ js "</em>".
Proof. reflexivity. Qed.

Lemma capture_middle (u a b : jsstring) (i : nat) (caps : captures) :
  capture (u ++ a ++ b)
    ((i, (length u, length u + length a)%nat) :: caps) i = a.
Proof.
  unfold capture; simpl; rewrite Nat.eqb_refl; apply substring_middle.
Qed.

(** The bold pass on a span without asterisks and line terminators. *)
Lemma boldPass_span (a : jsstring) :
  occurrences (ch "*") a = O -> noLineTerminator a ->
  boldPass (js "**" ++ a ++ js "**") = js "<strong>" ++ a ++ js "</strong>".
Proof.
  intros Hstar Hlt.
  unfold boldPass, replace.
  pose proof (bold_match a [] Hstar Hlt) as Hm.
  change (js "**" ++ a ++ js "**" ++ [])
    with (ch "*" :: ch "*" :: a ++ js "**") in Hm.
  change (js "**" ++ a ++ js "**") with (ch "*" :: ch "*" :: a ++ js "**").
  replace (length a + 3)%nat with (length (ch "*" :: a ++ js "**")) in Hm
    by (simpl; rewrite length_app; simpl; lia).
  rewrite (replaceFrom_match_all _ _ _ _ _ _ _ _ Hm).
  change (groupCount (pattern re_bold)) with 1%nat.
  rewrite getSubstitution_strong.
  change (ch "*" :: ch "*" :: a ++ js "**") with (js "**" ++ a ++ js "**").
  rewrite (capture_middle (js "**") a (js "**") 1).
  simpl; rewrite app_nil_r; reflexivity.
Qed.

(** The italic pass on a span without asterisks and line terminators. *)
Lemma italicPass_span (a : jsstring) :
  occurrences (ch "*") a = O -> noLineTerminator a ->
  italicPass (js "*" ++ a ++ js "*") = js "<em>" ++ a ++ js "</em>".
Proof.
  intros Hstar Hlt.
  unfold italicPass, replace.
  pose proof (italic_match a [] Hstar Hlt) as Hm.
  change (js "*" ++ a ++ js "*" ++ []) with (ch "*" :: a ++ js "*") in Hm.
  change (js "*" ++ a ++ js "*") with (ch "*" :: a ++ js "*").
  replace (length a + 1)%nat with (length (a ++ js "*")) in Hm
    by (rewrite length_app; simpl; lia).
  rewrite (replaceFrom_match_all _ _ _ _ _ _ _ _ Hm).
  change (groupCount (pattern re_italic)) with 1%nat.
  rewrite getSubstitution_em.
  change (ch "*" :: a ++ js "*") with (js "*" ++ a ++ js "*").
  rewrite (capture_middle (js "*") a (js "*") 1).
  simpl; rewrite app_nil_r; reflexivity.
Qed.

(** *** One-line texts through the line passes *)

Lemma replaceFrom_nil (re : regexp) (tpl input : jsstring) prev pos :
  matchAt re prev [] pos = None ->
  replaceFrom re tpl input prev [] pos O = [].
Proof. intros H; simpl; rewrite H; reflexivity. Qed.

Lemma replace_newline_one_line (s : jsstring) :
  noLineTerminator s -> replace re_newline tpl_br s = s.
Proof.
  intros H; apply (replace_too_few 10).
  rewrite (noLineTerminator_newlines s H); simpl; lia.
Qed.

(** The line passes leave a one-line text that starts with [<] as it is. *)
Lemma line_passes_tagged (s t3 t4 t5 t6 : jsstring) (re6 : regexp)
    (r6 : list node) :
  pattern re6 = Bol :: r6 ->
  matchAt re6 None (ch "<" :: s) O = None ->
  noLineTerminator s ->
  replace re_newline tpl_br
    (replace re6 t6
       (replace re_hashes3 t5
          (replace re_bullet t4 (replace re_numbered t3 (ch "<" :: s)))))
  = ch "<" :: s.
Proof.
  intros H6 Hnone Hs.
  assert (Hall : noLineTerminator (ch "<" :: s)) by (constructor; auto).
  rewrite (replace_anchored re_numbered t3 _ (ch "<") s eq_refl eq_refl Hall).
  rewrite (replace_anchored re_bullet t4 _ (ch "<") s eq_refl eq_refl Hall).
  rewrite (replace_anchored re_hashes3 t5 _ (ch "<") s eq_refl eq_refl Hall).
  rewrite (replace_anchored re6 t6 _ (ch "<") s H6 Hnone Hall).
  apply replace_newline_one_line; assumption.
Qed.

(** [formatText] on one bold span and on one italic span. *)
Lemma formatText_bold_span (a : jsstring) :
  occurrences (ch "*") a = O -> noLineTerminator a ->
  App.formatText (js "**" ++ a ++ js "**") = js "<strong>" ++ a ++ js "</strong>".
Proof.
  intros Hstar Hlt.
  rewrite formatText_pipeline by discriminate.
  rewrite (boldPass_span a Hstar Hlt).
  unfold italicPass; rewrite (replace_too_few (ch "*") re_italic).
  - apply (line_passes_tagged _ _ _ _ _ re_hashes2 _ eq_refl eq_refl).
    apply (noLineTerminator_app (js "strong>") (a ++ js "</strong>"));
      [repeat constructor|].
    apply noLineTerminator_app; [assumption | repeat constructor].
  - rewrite !occurrences_app, Hstar.
    change (literals (ch "*") (pattern re_italic)) with 2%nat.
    vm_compute; lia.
Qed.

Lemma formatText_italic_span (a : jsstring) :
  occurrences (ch "*") a = O -> noLineTerminator a ->
  App.formatText (js "*" ++ a ++ js "*") = js "<em>" ++ a ++ js "</em>".
Proof.
  intros Hstar Hlt.
  rewrite formatText_pipeline by discriminate.
  unfold boldPass; rewrite (replace_too_few (ch "*") re_bold).
  - rewrite (italicPass_span a Hstar Hlt).
    apply (line_passes_tagged _ _ _ _ _ re_hashes2 _ eq_refl eq_refl).
    apply (noLineTerminator_app (js "em>") (a ++ js "</em>"));
      [repeat constructor|].
    apply noLineTerminator_app; [assumption | repeat constructor].
  - rewrite !occurrences_app, Hstar.
    change (literals (ch "*") (pattern re_bold)) with 4%nat.
    vm_compute; lia.
Qed.

(** *** Bullet lines *)

Lemma bullet_match (marker : codeunit) (body : jsstring) :
  marker = ch "*" \/ marker = ch "-" ->
  noLineTerminator body -> startsBody body ->
  matchAt re_bullet None (marker :: ch " " :: body) O
  = Some ((0 + S (length (ch " " :: body)))%nat,
          [(1, (2, 2 + length body)); (1, (2, 2))]%nat).
Proof.
  intros Hmarker Hlt Hstart.
  unfold matchAt.
  assert (Hrun : run true (pattern re_bullet) None (marker :: ch " " :: body) O []
                 = greedy Space
                     (fun p t n =>
                        run true [Open 1; Star Dot; Eol; Close 1] p t n [])
                     (Some (ch " ")) body 2).
  { destruct Hmarker as [-> | ->]; reflexivity. }
  change (multiline re_bullet) with true; rewrite Hrun.
  rewrite greedy_stop by exact Hstart.
  simpl run.
  apply greedy_all; [apply noLineTerminator_dot; assumption|].
  simpl; do 2 f_equal.
Qed.

(** The heading passes and the line-break pass leave a one-line text that
    starts with [<] as it is. *)
Lemma heading_passes_tagged (s t5 t6 : jsstring) (re6 : regexp)
    (r6 : list node) :
  pattern re6 = Bol :: r6 ->
  matchAt re6 None (ch "<" :: s) O = None ->
  noLineTerminator s ->
  replace re_newline tpl_br
    (replace re6 t6 (replace re_hashes3 t5 (ch "<" :: s)))
  = ch "<" :: s.
Proof.
  intros H6 Hnone Hs.
  assert (Hall : noLineTerminator (ch "<" :: s)) by (constructor; auto).
  rewrite (replace_anchored re_hashes3 t5 _ (ch "<") s eq_refl eq_refl Hall).
  rewrite (replace_anchored re6 t6 _ (ch "<") s H6 Hnone Hall).
  apply replace_newline_one_line; assumption.
Qed.

Lemma getSubstitution_bullet (input : jsstring) (from to : nat)
    (caps : captures) :
  getSubstitution App.tpl_bullet input from to caps 1
  = openTag "div" "style" "margin: 6px 0; padding-left: 12px;"
    ++ [bullet] ++ js " " ++ capture input caps 1 ++ js "</div>".
Proof. reflexivity. Qed.

(** [formatText] of App.jsx on one bullet line: the marker, one space and a
    body on the same line, without asterisks, that does not start with white
    space. *)
Lemma formatText_bullet_line (marker : codeunit) (body : jsstring) :
  marker = ch "*" \/ marker = ch "-" ->
  occurrences (ch "*") body = O ->
  noLineTerminator body -> startsBody body ->
  App.formatText (marker :: ch " " :: body)
  = openTag "div" "style" "margin: 6px 0; padding-left: 12px;"
    ++ [bullet] ++ js " " ++ body ++ js "</div>".
Proof.
  intros Hmarker Hstar Hlt Hstart.
  assert (Hall : noLineTerminator (marker :: ch " " :: body)).
  { destruct Hmarker as [-> | ->]; repeat (constructor; [reflexivity|]);
      assumption. }
  rewrite formatText_pipeline by discriminate.
  unfold italicPass, boldPass; rewrite inline_passes_lone_asterisk.
  2:{ change (marker :: ch " " :: body) with ([marker; ch " "] ++ body).
      rewrite occurrences_app, Hstar; simpl.
      destruct (marker =? _); simpl; lia. }
  rewrite (replace_anchored re_numbered _ _ marker (ch " " :: body) eq_refl).
  2:{ destruct Hmarker as [-> | ->]; reflexivity. }
  2:{ exact Hall. }
  assert (Hbullet : replace re_bullet App.tpl_bullet (marker :: ch " " :: body)
                    = openTag "div" "style" "margin: 6px 0; padding-left: 12px;"
                      ++ [bullet] ++ js " " ++ body ++ js "</div>").
  { unfold replace.
    rewrite (replaceFrom_match_all _ _ _ _ _ _ _ _
               (bullet_match marker body Hmarker Hlt Hstart)).
    change (groupCount (pattern re_bullet)) with 1%nat.
    rewrite getSubstitution_bullet.
    assert (Hc : capture (marker :: ch " " :: body)
                   [(1, (2, 2 + length body)); (1, (2, 2))]%nat 1 = body).
    { pose proof (capture_middle [marker; ch " "] body [] 1 [(1, (2, 2))]%nat)
        as Hc.
      rewrite app_nil_r in Hc; exact Hc. }
    rewrite Hc.
    rewrite replaceFrom_nil.
    - rewrite app_nil_r; reflexivity.
    - unfold matchAt; simpl; destruct (atLineStart _ _); reflexivity. }
  rewrite Hbullet.
  apply (heading_passes_tagged _ _ _ re_hashes2 _ eq_refl eq_refl).
  apply (noLineTerminator_app
           (js "div style=" ++ dq
            ++ js "margin: 6px 0; padding-left: 12px;" ++ dq ++ js ">"
            ++ [bullet] ++ js " ") (body ++ js "</div>"));
    [repeat constructor|].
  apply noLineTerminator_app; [assumption | repeat constructor].
Qed.

(** C2.  What the three variants do with the heading lines of the claim.
    App.jsx and part_001 leave ["# Title"] as it is and turn ["## Title"]
    into the level-2 heading; part_000 does the opposite; every variant
    turns ["### Sub"] into the level-3 heading.  The heading passes of
    App.jsx need two [#]: a text with one [#] goes through them unchanged. *)
Theorem formatText_heading_levels :
  App.formatText (js "# Title") = js "# Title"
  /\ App.formatText (js "## Title")
     = openTag "h2" "style"
         "font-size: 20px; font-weight: 600; color: #2c3e50; margin: 16px 0 8px 0; line-height: 1.3;"
       ++ js "Title</h2>"
  /\ Part001.formatText (js "# Title") = js "# Title"
  /\ Part001.formatText (js "## Title")
     = openTag "h2" "class" "chat-h2" ++ js "Title</h2>"
  /\ Part000.formatText (js "# Title")
     = openTag "h2" "class" "chat-h2" ++ js "Title</h2>"
  /\ Part000.formatText (js "## Title") = js "## Title"
  /\ App.formatText (js "### Sub")
     = openTag "h3" "style"
         "font-size: 18px; font-weight: 600; color: #34495e; margin: 12px 0 6px 0; line-height: 1.3;"
       ++ js "Sub</h3>"
  /\ Part000.formatText (js "### Sub")
     = openTag "h3" "class" "chat-h3" ++ js "Sub</h3>"
  /\ Part001.formatText (js "### Sub")
     = openTag "h3" "class" "chat-h3" ++ js "Sub</h3>"
  /\ (forall text,
        (occurrences (ch "#") text <= 1)%nat ->
        replace re_hashes2 App.tpl_h2 (replace re_hashes3 App.tpl_h3 text)
        = text).
Proof.
  repeat (apply conj; [vm_compute; reflexivity|]).
  intros text H.
  rewrite (replace_too_few (ch "#") re_hashes3)
    by (change (literals (ch "#") (pattern re_hashes3)) with 3%nat; lia).
  apply (replace_too_few (ch "#")).
  change (literals (ch "#") (pattern re_hashes2)) with 2%nat; lia.
Qed.

(** C4.  The bold pass runs before the italic pass: ["**a**"] becomes
    [<strong>a</strong>] with no [<em>] in it, and ["*a*"] becomes
    [<em>a</em>].  The italic pass alone would take the first two asterisks
    of ["**a**"] for an empty span.  The same holds for every one-line
    content [a] without asterisks in place of ["a"]. *)
Theorem formatText_bold_before_italic :
  App.formatText (js "**a**") = js "<strong>a</strong>"
  /\ includes (App.formatText (js "**a**")) (js "<strong>a</strong>") = true
  /\ App.formatText (js "*a*") = js "<em>a</em>"
  /\ includes (App.formatText (js "*a*")) (js "<em>a</em>") = true
  /\ includes (App.formatText (js "**a**")) (js "<em>") = false
  /\ boldPass (js "**a**") = js "<strong>a</strong>"
  /\ italicPass (boldPass (js "**a**")) = js "<strong>a</strong>"
  /\ italicPass (js "**a**") = js "<em></em>a<em></em>"
  /\ (forall a,
        occurrences (ch "*") a = O -> noLineTerminator a ->
        App.formatText (js "**" ++ a ++ js "**")
        = js "<strong>" ++ a ++ js "</strong>"
        /\ App.formatText (js "*" ++ a ++ js "*")
           = js "<em>" ++ a ++ js "</em>").
Proof.
  repeat (apply conj; [vm_compute; reflexivity|]).
  intros a Hstar Hlt; split;
    [apply formatText_bold_span | apply formatText_italic_span]; assumption.
Qed.

(** C8.  On ["***a***"] the bold pass writes [<strong>*a</strong>*]; the
    italic pass reads that text and matches from the asterisk the bold pass
    left inside its tag to the one after it, so that its group holds the
    [</strong>] the bold pass wrote, and the tags of the output interleave. *)
Theorem formatText_passes_interleave :
  boldPass (js "***a***") = js "<strong>*a</strong>*"
  /\ (exists to caps,
        matchAt re_italic (Some (ch ">")) (js "*a</strong>*") 8 = Some (to, caps)
        /\ capture (js "<strong>*a</strong>*") caps 1 = js "a</strong>"
        /\ includes (js "***a***") (js "</strong>") = false)
  /\ italicPass (js "<strong>*a</strong>*") = js "<strong><em>a</strong></em>"
  /\ App.formatText (js "***a***") = js "<strong><em>a</strong></em>"
  /\ italicPass (js "***a***") <> italicPass (boldPass (js "***a***")).
Proof.
  split; [vm_compute; reflexivity|].
  split; [eexists; eexists; repeat apply conj; vm_compute; reflexivity|].
  split; [vm_compute; reflexivity|].
  split; [vm_compute; reflexivity|].
  vm_compute; discriminate.
Qed.

(** C9.  ["- item"] and ["* item"] both become the bullet item with the
    bullet glyph and the body ["item"]; the asterisk of ["* item"] has no
    partner, and the bold and italic passes leave the line as it is.  In
    App.jsx every line of a marker, a space and a one-line body without
    asterisks becomes the bullet item with that body. *)
Theorem formatText_bullet_items :
  App.formatText (js "- item")
  = openTag "div" "style" "margin: 6px 0; padding-left: 12px;"
    ++ [bullet] ++ js " item</div>"
  /\ App.formatText (js "* item")
     = openTag "div" "style" "margin: 6px 0; padding-left: 12px;"
       ++ [bullet] ++ js " item</div>"
  /\ italicPass (boldPass (js "* item")) = js "* item"
  /\ Part000.formatText (js "- item")
     = openTag "div" "class" "bullet-item" ++ [bullet] ++ js " item</div>"
  /\ Part000.formatText (js "* item") = Part000.formatText (js "- item")
  /\ Part001.formatText (js "- item") = Part000.formatText (js "- item")
  /\ Part001.formatText (js "* item") = Part000.formatText (js "- item")
  /\ (forall marker body,
        marker = ch "*" \/ marker = ch "-" ->
        occurrences (ch "*") body = O ->
        noLineTerminator body -> startsBody body ->
        App.formatText (marker :: ch " " :: body)
        = openTag "div" "style" "margin: 6px 0; padding-left: 12px;"
          ++ [bullet] ++ js " " ++ body ++ js "</div>").
Proof.
  repeat (apply conj; [vm_compute; reflexivity|]).
  apply formatText_bullet_line.
Qed.

(** C7, as the code has it.  [formatText] is a total function.  A text with
    at most one asterisk goes through the bold and italic passes unchanged,
    and when it has no white space either [formatText] returns it as it is;
    fewer than four asterisks are never made bold.  An unclosed [**] is not
    among the texts that pass through: the italic pass reads it as an empty
    span. *)
Theorem formatText_unbalanced (text : jsstring) :
  (exists out, App.formatText text = out)
  /\ ((occurrences (ch "*") text <= 1)%nat ->
      italicPass (boldPass text) = text)
  /\ ((occurrences (ch "*") text <= 1)%nat ->
      Forall (fun x => isWhiteSpace x = false) text ->
      App.formatText text = text
      /\ Part000.formatText text = text
      /\ Part001.formatText text = text)
  /\ ((occurrences (ch "*") text <= 3)%nat -> boldPass text = text)
  /\ App.formatText (js "a * b") = js "a * b"
  /\ App.formatText (js "**a") = js "<em></em>a".
Proof.
  split; [eexists; reflexivity|].
  split; [apply inline_passes_lone_asterisk|].
  split.
  - intros Hone Hsp.
    destruct text as [|x text]; [repeat apply conj; reflexivity|].
    unfold App.formatText, Part000.formatText, Part001.formatText.
    rewrite (inline_passes_lone_asterisk _ Hone).
    repeat apply conj; apply line_passes_no_space;
      solve [assumption | simpl; auto 12].
  - split.
    + intros H; apply (replace_too_few (ch "*")).
      change (literals (ch "*") (pattern re_bold)) with 4%nat; lia.
    + split; vm_compute; reflexivity.
Qed.

Lemma formatText_unbalanced_witness :
  App.formatText (js "2*3") = js "2*3".
Proof.
  refine (proj1 (proj1 (proj2 (proj2 (formatText_unbalanced (js "2*3")))) _ _)).
  - apply Nat.leb_le; vm_compute; reflexivity.
  - repeat constructor.
Defined.

(** An unclosed [**] does not pass through literally: ["**a"] comes out as
    an empty [<em>] span followed by ["a"]. *)
Lemma formatText_unclosed_bold :
  App.formatText (js "**a") = js "<em></em>a"
  /\ App.formatText (js "**a") <> js "**a"
  /\ includes (App.formatText (js "**a")) (js "<em>") = true
  /\ includes (App.formatText (js "**a")) (js "**") = false.
Proof.
  split; [vm_compute; reflexivity|].
  split; [vm_compute; discriminate|].
  split; vm_compute; reflexivity.
Qed.
